(** * ticket-api: the ticket store and its request handlers (index.js)

    A shallow embedding of [index.js].  The handlers of the Express
    application are synchronous JavaScript functions that read and write one
    file, [tickets.json], draw identifiers from [uuidv4()] and time stamps from
    [new Date().toISOString()], and log to [console.error].  They are embedded
    as computations in a state-and-exception monad over a [World] that holds
    the file, the console and the two sources of fresh values.

    Conventions of the embedding:
    - a JavaScript value is a [value]; numbers are IEEE-754 doubles
      ([spec_float]); [VUndef] is [undefined];
    - the text of [tickets.json] is known by what [JSON.parse] makes of it
      ([text]): either it does not parse ([Garbage]) or it parses to a value
      ([Doc v]);
    - [JSON.parse (JSON.stringify v)] is [roundtrip v];
    - the file system can refuse a read or a write ([may_read], [may_write]);
      a refused write leaves the file as it was. *)

From Stdlib Require Import List Ascii String Bool Arith ZArith Lia Permutation.
From Stdlib Require Import SpecFloat.
Import ListNotations.
Local Open Scope string_scope.
Local Open Scope list_scope.

Set Implicit Arguments.
Set Warnings "-register-all".

(** ** JavaScript values *)

Inductive value : Type :=
  | VUndef
  | VNull
  | VBool (b : bool)
  | VNum (f : spec_float)
  | VStr (s : string)
  | VArr (items : list value)
  | VObj (props : list (string * value)).

(** [!v] is [negb (truthy v)]: [undefined], [null], [false], [0], [-0], [NaN]
    and the empty string are falsy, everything else is truthy. *)
Definition truthy (v : value) : bool :=
  match v with
  | VUndef | VNull => false
  | VBool b => b
  | VNum (S754_zero _) | VNum S754_nan => false
  | VNum _ => true
  | VStr s => negb (String.eqb s "")
  | VArr _ | VObj _ => true
  end.

(** Own property [k] of an object literal; [undefined] when there is none. *)
Fixpoint prop (k : string) (props : list (string * value)) : value :=
  match props with
  | [] => VUndef
  | (k', v) :: rest => if String.eqb k k' then v else prop k rest
  end.

(** What [JSON.stringify] prints for a number, read back: both zeros print as
    [0], the infinities and [NaN] print as [null]. *)
Definition roundtrip_number (f : spec_float) : value :=
  match f with
  | S754_zero _ => VNum (S754_zero false)
  | S754_finite _ _ _ => VNum f
  | S754_infinity _ | S754_nan => VNull
  end.

(** [JSON.parse (JSON.stringify v)]: an [undefined] element of an array prints
    as [null], a property whose value is [undefined] is not printed. *)
Fixpoint roundtrip (v : value) : value :=
  match v with
  | VUndef => VNull
  | VNull => VNull
  | VBool b => VBool b
  | VNum f => roundtrip_number f
  | VStr s => VStr s
  | VArr items => VArr (map roundtrip items)
  | VObj props =>
      VObj ((fix each (ps : list (string * value)) : list (string * value) :=
               match ps with
               | [] => []
               | (_, VUndef) :: rest => each rest
               | (k, x) :: rest => (k, roundtrip x) :: each rest
               end) props)
  end.

(** ** Errors, the file and the world *)

Inductive JsError : Type :=
  | ENOENT          (* no such file *)
  | EACCES          (* the file system refused the operation *)
  | SyntaxError     (* JSON.parse on text that is not JSON *)
  | TypeError.      (* e.g. calling a method the receiver does not have *)

Inductive text : Type :=
  | Garbage
  | Doc (v : value).

Record Disk : Type := mkDisk {
  file : option text;     (* tickets.json; [None] when it does not exist *)
  may_read : bool;
  may_write : bool
}.

Inductive LogLine : Type :=
  | ErrorReading (e : JsError)      (* console.error("Error reading tickets:", error) *)
  | ErrorWriting (e : JsError).     (* console.error("Error writing tickets:", error) *)

Record World : Type := mkWorld {
  disk : Disk;
  console : list LogLine;
  uuid_source : nat -> string;      (* the n-th identifier uuidv4() hands out *)
  uuid_calls : nat;
  clock : nat -> string;            (* the n-th reading of the clock, as ISO text *)
  clock_reads : nat
}.

Definition with_disk (d : Disk) (w : World) : World :=
  mkWorld d (console w) (uuid_source w) (uuid_calls w) (clock w) (clock_reads w).

Definition with_console (c : list LogLine) (w : World) : World :=
  mkWorld (disk w) c (uuid_source w) (uuid_calls w) (clock w) (clock_reads w).

(** ** The monad of synchronous JavaScript code *)

Inductive Result (A : Type) : Type :=
  | Ok (a : A)
  | Threw (e : JsError).
Arguments Threw {A} e.

Definition Js (A : Type) : Type := World -> Result A * World.

Definition ret {A} (a : A) : Js A := fun w => (Ok a, w).

Definition throw {A} (e : JsError) : Js A := fun w => (Threw e, w).

Definition bind {A B} (m : Js A) (k : A -> Js B) : Js B :=
  fun w => match m w with
           | (Ok a, w') => k a w'
           | (Threw e, w') => (Threw e, w')
           end.

Definition try_catch {A} (body : Js A) (handler : JsError -> Js A) : Js A :=
  fun w => match body w with
           | (Ok a, w') => (Ok a, w')
           | (Threw e, w') => handler e w'
           end.

Notation "x <- m ;; k" := (bind m (fun x => k))
  (at level 61, m at next level, right associativity).
Notation "m ;;; k" := (bind m (fun _ => k))
  (at level 61, right associativity).

(** ** The library calls index.js makes *)

Definition fs_existsSync : Js bool :=
  fun w => (Ok (match file (disk w) with Some _ => true | None => false end), w).

Definition fs_readFileSync : Js text :=
  fun w => match file (disk w) with
           | None => (Threw ENOENT, w)
           | Some t => if may_read (disk w) then (Ok t, w) else (Threw EACCES, w)
           end.

Definition fs_writeFileSync (data : text) : Js unit :=
  fun w => if may_write (disk w)
           then (Ok tt, with_disk (mkDisk (Some data) (may_read (disk w)) true) w)
           else (Threw EACCES, w).

Definition JSON_parse (t : text) : Js value :=
  match t with
  | Garbage => throw SyntaxError
  | Doc v => ret v
  end.

Definition JSON_stringify (v : value) : text := Doc (roundtrip v).

Definition console_error (l : LogLine) : Js unit :=
  fun w => (Ok tt, with_console (console w ++ [l]) w).

Definition uuidv4 : Js string :=
  fun w => (Ok (uuid_source w (uuid_calls w)),
            mkWorld (disk w) (console w) (uuid_source w) (S (uuid_calls w))
                    (clock w) (clock_reads w)).

(** [new Date().toISOString()] *)
Definition Date_toISOString : Js string :=
  fun w => (Ok (clock w (clock_reads w)),
            mkWorld (disk w) (console w) (uuid_source w) (uuid_calls w)
                    (clock w) (S (clock_reads w))).

(** [const { title, description } = req.body] reads one property: it throws on
    [undefined] and [null], and finds nothing on the other primitives and on
    arrays. *)
Definition destructure (k : string) (body : value) : Js value :=
  match body with
  | VUndef | VNull => throw TypeError
  | VObj props => ret (prop k props)
  | _ => ret VUndef
  end.

(** [tickets.push(t)]: only an array has the method. *)
Definition push (tickets t : value) : Js value :=
  match tickets with
  | VArr items => ret (VArr (items ++ [t]))
  | _ => throw TypeError
  end.

(** ** index.js *)

Definition initializeTicketsFile : Js unit :=
  present <- fs_existsSync ;;
  if negb present then fs_writeFileSync (JSON_stringify (VArr [])) else ret tt.

Definition readTickets : Js value :=
  try_catch
    (data <- fs_readFileSync ;; JSON_parse data)
    (fun error => console_error (ErrorReading error) ;;; ret (VArr [])).

Definition writeTickets (tickets : value) : Js unit :=
  try_catch
    (fs_writeFileSync (JSON_stringify tickets))
    (fun error => console_error (ErrorWriting error)).

Record Response : Type := mkResponse {
  status : nat;
  json : value           (* the argument of res.json *)
}.

Definition required_fields_error : value :=
  VObj [("error", VStr "Title and description are required fields")].

Definition newTicket (id : string) (title description : value) (createdAt : string)
  : value :=
  VObj [("id", VStr id); ("title", title); ("description", description);
        ("createdAt", VStr createdAt)].

(** [app.post("/tickets", ...)] *)
Definition post_tickets (body : value) : Js Response :=
  title <- destructure "title" body ;;
  description <- destructure "description" body ;;
  if negb (truthy title) || negb (truthy description) then
    ret (mkResponse 400 required_fields_error)
  else
    id <- uuidv4 ;;
    createdAt <- Date_toISOString ;;
    let ticket := newTicket id title description createdAt in
    tickets <- readTickets ;;
    tickets' <- push tickets ticket ;;
    writeTickets tickets' ;;;
    ret (mkResponse 201 ticket).

(** [app.get("/tickets", ...)] *)
Definition get_tickets : Js Response :=
  tickets <- readTickets ;;
  ret (mkResponse 200 tickets).

(** [app.get("/health", ...)] *)
Definition get_health : Js Response :=
  ret (mkResponse 200 (VObj [("status", VStr "OK")])).

(** ** The life of the service

    What happens to the service, one thing at a time: the process starts
    ([Boot] runs [initializeTicketsFile]), a request is handled, or the
    operator changes what the file system allows ([Chmod]).  A handler that
    throws does not answer; Express turns the exception into its own error
    response and the process goes on. *)

Inductive Event : Type :=
  | Boot
  | PostTickets (body : value)
  | GetTickets
  | GetHealth
  | Chmod (r w : bool).

Definition chmod (r w : bool) : Js unit :=
  fun s => (Ok tt, with_disk (mkDisk (file (disk s)) r w) s).

Definition handle (ev : Event) : Js (option Response) :=
  match ev with
  | Boot => initializeTicketsFile ;;; ret None
  | PostTickets body => r <- post_tickets body ;; ret (Some r)
  | GetTickets => r <- get_tickets ;; ret (Some r)
  | GetHealth => r <- get_health ;; ret (Some r)
  | Chmod r w => chmod r w ;;; ret None
  end.

Definition Outcome : Type := Result (option Response).

Fixpoint run (evs : list Event) (w : World) : list Outcome * World :=
  match evs with
  | [] => ([], w)
  | ev :: rest =>
      let (o, w1) := handle ev w in
      let (os, w2) := run rest w1 in
      (o :: os, w2)
  end.

(** The tickets in the file, when the file holds an array. *)
Definition persisted (d : Disk) : list value :=
  match file d with
  | Some (Doc (VArr items)) => items
  | _ => []
  end.

(** The identifiers of the tickets the service answered with 201. *)
Definition created_id (o : Outcome) : list value :=
  match o with
  | Ok (Some r) =>
      if Nat.eqb (status r) 201
      then match json r with VObj props => [prop "id" props] | _ => [] end
      else []
  | _ => []
  end.

Definition created_ids (os : list Outcome) : list value :=
  flat_map created_id os.

Definition ticket_id (t : value) : value :=
  match t with
  | VObj props => prop "id" props
  | _ => VUndef
  end.

(** Requests are served one at a time: a handler is synchronous code without
    a callback or an [await], so the event loop runs it to its end before it
    picks the next pending request.  Requests that are in flight together are
    served in some order, any order. *)
Inductive serves : list value -> World -> list (value * Result Response) -> World -> Prop :=
  | serves_done w : serves [] w [] w
  | serves_pick before body after w o w1 rest w2 :
      post_tickets body w = (o, w1) ->
      serves (before ++ after) w1 rest w2 ->
      serves (before ++ body :: after) w ((body, o) :: rest) w2.

(** ** Induction on values *)

Section ValueInduction.
Variable P : value -> Prop.
Hypothesis Hundef : P VUndef.
Hypothesis Hnull : P VNull.
Hypothesis Hbool : forall b, P (VBool b).
Hypothesis Hnum : forall f, P (VNum f).
Hypothesis Hstr : forall s, P (VStr s).
Hypothesis Harr : forall items, Forall P items -> P (VArr items).
Hypothesis Hobj : forall props, Forall (fun kv => P (snd kv)) props -> P (VObj props).

Fixpoint value_rect' (v : value) : P v :=
  match v with
  | VUndef => Hundef
  | VNull => Hnull
  | VBool b => Hbool b
  | VNum f => Hnum f
  | VStr s => Hstr s
  | VArr items =>
      Harr ((fix all (l : list value) : Forall P l :=
               match l with
               | [] => Forall_nil P
               | x :: r => Forall_cons x (value_rect' x) (all r)
               end) items)
  | VObj props =>
      Hobj ((fix all (l : list (string * value)) : Forall (fun kv => P (snd kv)) l :=
               match l with
               | [] => Forall_nil _
               | kv :: r => Forall_cons kv (value_rect' (snd kv)) (all r)
               end) props)
  end.
End ValueInduction.

(** The properties of an object after [JSON.stringify] and [JSON.parse]. *)
Fixpoint roundtrip_props (ps : list (string * value)) : list (string * value) :=
  match ps with
  | [] => []
  | (_, VUndef) :: rest => roundtrip_props rest
  | (k, x) :: rest => (k, roundtrip x) :: roundtrip_props rest
  end.

(** ** Vocabulary of the statements *)

(** A field that is absent, [null] or the empty string. *)
Definition blank (v : value) : Prop :=
  v = VUndef \/ v = VNull \/ v = VStr "".

Definition nonempty_text (v : value) : bool :=
  match v with
  | VStr s => negb (String.eqb s "")
  | _ => false
  end.

Definition is_array (v : value) : bool :=
  match v with
  | VArr _ => true
  | _ => false
  end.

Definition title_of (v : value) : value :=
  match v with
  | VObj props => prop "title" props
  | _ => VUndef
  end.

Definition description_of (v : value) : value :=
  match v with
  | VObj props => prop "description" props
  | _ => VUndef
  end.

Definition createdAt_of (v : value) : value :=
  match v with
  | VObj props => prop "createdAt" props
  | _ => VUndef
  end.

(** The names of the properties of an object, in their order. *)
Definition keys_of (v : value) : list string :=
  match v with
  | VObj props => map fst props
  | _ => []
  end.

(** A create request whose title and description pass the handler's check. *)
Definition accepted (body : value) : bool :=
  match body with
  | VObj props => truthy (prop "title" props) && truthy (prop "description" props)
  | _ => false
  end.

(** A create request with a non-empty text title and description. *)
Definition well_formed (body : value) : bool :=
  match body with
  | VObj props =>
      nonempty_text (prop "title" props) && nonempty_text (prop "description" props)
  | _ => false
  end.

(** Why reading the file fails, if it does. *)
Definition read_failure (d : Disk) : option JsError :=
  match file d with
  | None => Some ENOENT
  | Some t =>
      if may_read d
      then match t with Garbage => Some SyntaxError | Doc _ => None end
      else Some EACCES
  end.

Definition read_log (d : Disk) : list LogLine :=
  match read_failure d with
  | Some e => [ErrorReading e]
  | None => []
  end.

(** What [readTickets] returns on a disk. *)
Definition listed (d : Disk) : value :=
  match file d with
  | Some (Doc v) => if may_read d then v else VArr []
  | _ => VArr []
  end.

(** The world after [uuidv4()] and [new Date()] were called once each. *)
Definition drawn (w : World) : World :=
  mkWorld (disk w) (console w) (uuid_source w) (S (uuid_calls w))
          (clock w) (S (clock_reads w)).

(** The world in which [post_tickets] has read the file. *)
Definition after_read (w : World) : World :=
  with_console (console w ++ read_log (disk w)) (drawn w).

(** The ticket a create request makes in world [w]. *)
Definition ticket_for (props : list (string * value)) (w : World) : value :=
  newTicket (uuid_source w (uuid_calls w)) (prop "title" props)
            (prop "description" props) (clock w (clock_reads w)).

(** What goes over the wire for [res.json(v)]. *)
Definition sent (r : Response) : text := JSON_stringify (json r).

(** ** The invariant of the file

    Every ticket in the file was made by a create request that passed
    validation: [Receipt] records which identifier the request drew and what
    it supplied. *)

Record Receipt : Type := mkReceipt {
  r_index : nat;            (* which call of uuidv4() made the identifier *)
  r_title : value;
  r_description : value;
  r_time : string
}.

Definition stored_ticket (source : nat -> string) (r : Receipt) : value :=
  roundtrip (newTicket (source (r_index r)) (r_title r) (r_description r) (r_time r)).

Definition receipt_ok (base : nat) (w : World) (r : Receipt) : Prop :=
  base <= r_index r < uuid_calls w
  /\ truthy (r_title r) = true /\ truthy (r_description r) = true.

Definition store_inv (base : nat) (w : World) : Prop :=
  exists rs,
    persisted (disk w) = map (stored_ticket (uuid_source w)) rs
    /\ NoDup (map r_index rs)
    /\ Forall (receipt_ok base w) rs.

(** The identifiers [uuidv4()] handed out between two worlds. *)
Definition drawn_ids (w w' : World) : list string :=
  map (uuid_source w) (seq (uuid_calls w) (uuid_calls w' - uuid_calls w)).

(** The create handler answered 201 with a ticket that carries the title and
    the description of the request. *)
Definition created_from (body : value) (o : Result Response) : Prop :=
  exists t, o = Ok (mkResponse 201 t)
            /\ title_of t = title_of body
            /\ description_of t = description_of body.

(** What one event does to the world, as far as the file and the source of
    identifiers are concerned. *)
Inductive effect (ev : Event) (w : World) (o : Outcome) (w' : World) : Prop :=
  | effect_none :
      file (disk w') = file (disk w) ->
      uuid_calls w' = uuid_calls w ->
      created_id o = [] ->
      effect ev w o w'
  | effect_initialized :
      file (disk w) = None ->
      file (disk w') = Some (Doc (VArr [])) ->
      uuid_calls w' = uuid_calls w ->
      created_id o = [] ->
      effect ev w o w'
  | effect_threw props :
      ev = PostTickets (VObj props) ->
      file (disk w') = file (disk w) ->
      uuid_calls w' = S (uuid_calls w) ->
      created_id o = [] ->
      effect ev w o w'
  | effect_created props items :
      ev = PostTickets (VObj props) ->
      accepted (VObj props) = true ->
      listed (disk w) = VArr items ->
      uuid_calls w' = S (uuid_calls w) ->
      o = Ok (Some (mkResponse 201 (ticket_for props w))) ->
      file (disk w') = file (disk w)
      \/ file (disk w') = Some (Doc (roundtrip (VArr (items ++ [ticket_for props w])))) ->
      effect ev w o w'.

(** ** Vocabulary for whole runs *)

(** The tickets the service answered with 201, in the order of the answers. *)
Definition created_ticket (o : Outcome) : list value :=
  match o with
  | Ok (Some r) => if Nat.eqb (status r) 201 then [json r] else []
  | _ => []
  end.

Definition created_tickets (os : list Outcome) : list value :=
  flat_map created_ticket os.

(** Events that leave the file readable, and events that leave the
    permissions alone. *)
Definition keeps_readable (ev : Event) : bool :=
  match ev with
  | Chmod r _ => r
  | _ => true
  end.

Definition no_chmod (ev : Event) : bool :=
  match ev with
  | Chmod _ _ => false
  | _ => true
  end.

(** A disk on which [readTickets] finds a list of tickets, printed the way
    [JSON.stringify] prints: the file may be read, and it is missing, does not
    parse, or holds an array whose items are as the service writes them. *)
Definition steady (d : Disk) : Prop :=
  may_read d = true
  /\ is_array (listed d) = true
  /\ map roundtrip (persisted d) = persisted d.

(** Sample data for the examples. *)
Fixpoint tally (n : nat) : string :=
  match n with
  | O => ""
  | S k => String "1"%char (tally k)
  end.

Definition sample_uuid (n : nat) : string := "uuid-" ++ tally n.
Definition sample_time (n : nat) : string := "2025-11-17T10:30:00.000Z+" ++ tally n.

Definition sample_world (d : Disk) : World :=
  mkWorld d [] sample_uuid 0 sample_time 0.

Definition fresh_disk : Disk := mkDisk None true true.
Definition empty_disk : Disk := mkDisk (Some (Doc (VArr []))) true true.
Definition read_only_disk : Disk := mkDisk (Some (Doc (VArr []))) true false.
Definition garbage_disk : Disk := mkDisk (Some Garbage) true true.
Definition object_disk : Disk :=
  mkDisk (Some (Doc (VObj [("tickets", VArr [])]))) true true.

Definition old_ticket : value :=
  newTicket "a1b2" (VStr "Old ticket") (VStr "Written last week") "2025-11-10T08:00:00.000Z".

(** A file that holds one ticket and may not be read. *)
Definition locked_disk : Disk := mkDisk (Some (Doc (VArr [old_ticket]))) false true.

(** A file that holds one ticket, readable and writable. *)
Definition used_disk : Disk := mkDisk (Some (Doc (VArr [old_ticket]))) true true.

Definition login_bug : value :=
  VObj [("title", VStr "Fix login bug");
        ("description", VStr "Users can't log in with special chars")].

Definition no_title : value :=
  VObj [("title", VStr ""); ("description", VStr "Users can't log in")].

Definition five : spec_float := S754_finite false 5 0.

Definition numeric_title : value :=
  VObj [("title", VNum five); ("description", VBool true)].

Lemma roundtrip_obj props : roundtrip (VObj props) = VObj (roundtrip_props props).
Proof.
  reflexivity.
Qed.

Lemma roundtrip_arr items : roundtrip (VArr items) = VArr (map roundtrip items).
Proof. reflexivity. Qed.

Lemma roundtrip_not_undef v : roundtrip v <> VUndef.
Proof. destruct v; simpl; try discriminate. destruct f; discriminate. Qed.

Lemma roundtrip_number_idem f : roundtrip (roundtrip_number f) = roundtrip_number f.
Proof. destruct f; reflexivity. Qed.

Lemma roundtrip_props_cons k x rest :
  x <> VUndef ->
  roundtrip_props ((k, x) :: rest) = (k, roundtrip x) :: roundtrip_props rest.
Proof. destruct x; intros H; try reflexivity. now elim H. Qed.

Lemma roundtrip_props_step k x rest :
  roundtrip_props ((k, x) :: rest) = roundtrip_props rest /\ x = VUndef \/
  roundtrip_props ((k, x) :: rest) = (k, roundtrip x) :: roundtrip_props rest /\ x <> VUndef.
Proof. destruct x; (left; split; reflexivity) || (right; split; [reflexivity|discriminate]). Qed.

(** Printing and reading back a second time changes nothing. *)
Lemma roundtrip_idem v : roundtrip (roundtrip v) = roundtrip v.
Proof.
  induction v using value_rect'.
  - reflexivity.
  - reflexivity.
  - reflexivity.
  - apply roundtrip_number_idem.
  - reflexivity.
  - simpl. f_equal. rewrite map_map. apply map_ext_Forall. assumption.
  - rewrite !roundtrip_obj. f_equal.
    induction H as [|[k x] rest Hx _ IH]; [reflexivity|].
    simpl in Hx.
    destruct (roundtrip_props_step k x rest) as [[E _]|[E _]]; rewrite E.
    + exact IH.
    + rewrite roundtrip_props_cons by apply roundtrip_not_undef.
      now rewrite Hx, IH.
Qed.

(** ** What the store functions compute *)

Lemma readTickets_spec w :
  readTickets w = (Ok (listed (disk w)), with_console (console w ++ read_log (disk w)) w).
Proof.
  destruct w as [[f r wr] c us un ck cn].
  unfold readTickets, try_catch, bind, fs_readFileSync, listed, read_log, read_failure,
    with_console; simpl.
  destruct f as [[|v]|]; destruct r; simpl; rewrite ?app_nil_r; reflexivity.
Qed.

Lemma writeTickets_spec tickets w :
  writeTickets tickets w =
  if may_write (disk w)
  then (Ok tt, with_disk (mkDisk (Some (Doc (roundtrip tickets))) (may_read (disk w)) true) w)
  else (Ok tt, with_console (console w ++ [ErrorWriting EACCES]) w).
Proof.
  unfold writeTickets, try_catch, fs_writeFileSync, JSON_stringify, console_error.
  destruct (may_write (disk w)); reflexivity.
Qed.

(** The whole of the create handler on a request that passes the check. *)
Lemma post_tickets_accepted props w :
  accepted (VObj props) = true ->
  post_tickets (VObj props) w =
  match listed (disk w) with
  | VArr items =>
      if may_write (disk w)
      then (Ok (mkResponse 201 (ticket_for props w)),
            with_disk (mkDisk (Some (Doc (roundtrip (VArr (items ++ [ticket_for props w])))))
                              (may_read (disk w)) true)
                      (after_read w))
      else (Ok (mkResponse 201 (ticket_for props w)),
            with_console (console (after_read w) ++ [ErrorWriting EACCES]) (after_read w))
  | _ => (Threw TypeError, after_read w)
  end.
Proof.
  intros Hok. simpl in Hok. apply andb_true_iff in Hok as [Ht Hd].
  unfold post_tickets, destructure, bind at 1 2, ret at 1 2.
  rewrite Ht, Hd. cbn [negb orb].
  unfold bind at 1, uuidv4. unfold bind at 1, Date_toISOString. cbv beta iota.
  unfold bind at 1. rewrite readTickets_spec.
  unfold ticket_for, after_read, drawn.
  destruct w as [[f r wr] c us un ck cn]; cbn [disk console uuid_source uuid_calls clock clock_reads].
  destruct (listed (mkDisk f r wr)); try reflexivity.
  unfold push, bind at 1, ret at 1. unfold bind at 1.
  rewrite writeTickets_spec. cbn [disk with_console may_write may_read].
  destruct wr; reflexivity.
Qed.

(** ** Validation *)

(** C3. A create request whose title or description is absent, [null] or the
    empty string is answered 400 with the message "Title and description are
    required fields"; the world is left exactly as it was: the file is neither
    read nor written, nothing is logged, no identifier is drawn. *)
Theorem post_tickets_rejects_blank props w :
  blank (prop "title" props) \/ blank (prop "description" props) ->
  post_tickets (VObj props) w = (Ok (mkResponse 400 required_fields_error), w).
Proof.
  intros H.
  unfold post_tickets, destructure, bind at 1 2, ret at 1 2.
  assert (E : negb (truthy (prop "title" props))
              || negb (truthy (prop "description" props)) = true).
  { apply orb_true_iff.
    destruct H as [[H | [H | H]] | [H | [H | H]]]; rewrite H; auto. }
  rewrite E. reflexivity.
Qed.

Lemma post_tickets_rejects_blank_witness :
  blank (title_of no_title) /\
  post_tickets no_title (sample_world empty_disk)
  = (Ok (mkResponse 400 required_fields_error), sample_world empty_disk).
Proof.
  split.
  - right. right. reflexivity.
  - apply (post_tickets_rejects_blank
             [("title", VStr ""); ("description", VStr "Users can't log in")]
             (sample_world empty_disk)).
    left. right. right. reflexivity.
Defined.

(** ** Reading a file that cannot be read *)

(** C7. When the file is missing, may not be read or does not parse, the list
    handler logs the read error and answers 200 with the empty array. *)
Theorem get_tickets_unreadable w e :
  read_failure (disk w) = Some e ->
  get_tickets w
  = (Ok (mkResponse 200 (VArr [])), with_console (console w ++ [ErrorReading e]) w).
Proof.
  intros H. unfold get_tickets, bind. rewrite readTickets_spec.
  unfold read_log. rewrite H. unfold ret. do 2 f_equal.
  unfold listed. unfold read_failure in H.
  destruct (file (disk w)) as [[|v]|]; try reflexivity.
  destruct (may_read (disk w)); [discriminate | reflexivity].
Qed.

Lemma get_tickets_unreadable_witness :
  read_failure garbage_disk = Some SyntaxError /\
  get_tickets (sample_world garbage_disk)
  = (Ok (mkResponse 200 (VArr [])),
     with_console [ErrorReading SyntaxError] (sample_world garbage_disk)).
Proof.
  split.
  - reflexivity.
  - apply (get_tickets_unreadable (sample_world garbage_disk) (e := SyntaxError)).
    reflexivity.
Defined.

(** ** A file that holds JSON which is not an array *)

(** C10. When the file parses to a value that is not an array, a create
    request that passes validation throws a TypeError at [tickets.push]: the
    handler sends no response, the file is left as it was and nothing is
    logged. *)
Theorem post_tickets_not_an_array props w v :
  accepted (VObj props) = true ->
  file (disk w) = Some (Doc v) ->
  may_read (disk w) = true ->
  is_array v = false ->
  exists w', post_tickets (VObj props) w = (Threw TypeError, w')
             /\ disk w' = disk w /\ console w' = console w.
Proof.
  intros Hok Hf Hr Hv.
  rewrite (post_tickets_accepted props w Hok).
  assert (El : listed (disk w) = v) by (unfold listed; now rewrite Hf, Hr).
  assert (Eg : read_log (disk w) = [])
    by (unfold read_log, read_failure; now rewrite Hf, Hr).
  rewrite El.
  exists (after_read w).
  split; [destruct v; try reflexivity; discriminate|].
  split; [reflexivity|].
  unfold after_read. simpl. rewrite Eg. apply app_nil_r.
Qed.

Lemma post_tickets_not_an_array_witness :
  accepted login_bug = true /\
  exists w', post_tickets login_bug (sample_world object_disk) = (Threw TypeError, w')
             /\ disk w' = object_disk /\ console w' = [].
Proof.
  split.
  - reflexivity.
  - apply (post_tickets_not_an_array
             [("title", VStr "Fix login bug");
              ("description", VStr "Users can't log in with special chars")]
             (sample_world object_disk) (v := VObj [("tickets", VArr [])]));
      reflexivity.
Defined.

(** ** A write that the file system refuses *)

(** C1, as the code behaves. On a disk that refuses the write, a valid create
    request is still answered 201 with the new ticket, and the ticket is not
    in the file. *)
Lemma post_tickets_read_only_answers_201 :
  well_formed login_bug = true /\
  may_write read_only_disk = false /\
  exists t w',
    post_tickets login_bug (sample_world read_only_disk) = (Ok (mkResponse 201 t), w')
    /\ disk w' = read_only_disk
    /\ persisted (disk w') = [].
Proof.
  split; [reflexivity|]. split; [reflexivity|].
  eexists. eexists. split; [lazy; reflexivity|]. split; reflexivity.
Qed.

(** C1, amended. When the file system refuses the write, [writeTickets]
    catches the error and logs "Error writing tickets:"; the handler does not
    learn of it and answers 201 with the new ticket; the file is left as it
    was. *)
Theorem post_tickets_write_refused props w :
  accepted (VObj props) = true ->
  is_array (listed (disk w)) = true ->
  may_write (disk w) = false ->
  exists w', post_tickets (VObj props) w = (Ok (mkResponse 201 (ticket_for props w)), w')
             /\ disk w' = disk w
             /\ console w' = console w ++ read_log (disk w) ++ [ErrorWriting EACCES].
Proof.
  intros Hok Harr Hw.
  rewrite (post_tickets_accepted props w Hok), Hw.
  destruct (listed (disk w)); try discriminate.
  eexists. split; [reflexivity|]. split; [reflexivity|].
  simpl. now rewrite <- app_assoc.
Qed.

Lemma post_tickets_write_refused_witness :
  accepted login_bug = true /\
  may_write read_only_disk = false /\
  exists w',
    post_tickets login_bug (sample_world read_only_disk)
    = (Ok (mkResponse 201
             (newTicket "uuid-" (VStr "Fix login bug")
                        (VStr "Users can't log in with special chars")
                        "2025-11-17T10:30:00.000Z+")), w')
    /\ disk w' = read_only_disk
    /\ console w' = [ErrorWriting EACCES].
Proof.
  split; [reflexivity|]. split; [reflexivity|].
  apply (post_tickets_write_refused
           [("title", VStr "Fix login bug");
            ("description", VStr "Users can't log in with special chars")]
           (sample_world read_only_disk)); reflexivity.
Defined.

(** ** Start-up *)

(** C5. [initializeTicketsFile] leaves a world whose file exists untouched,
    whatever the file holds; when there is no file and the file system takes
    the write, it creates the file holding the empty array; and running it a
    second time changes nothing, in every world. *)
Theorem initializeTicketsFile_idempotent w :
  (file (disk w) <> None -> initializeTicketsFile w = (Ok tt, w))
  /\ (file (disk w) = None -> may_write (disk w) = true ->
      exists w', initializeTicketsFile w = (Ok tt, w')
                 /\ file (disk w') = Some (Doc (VArr []))
                 /\ initializeTicketsFile w' = (Ok tt, w'))
  /\ snd (initializeTicketsFile (snd (initializeTicketsFile w)))
     = snd (initializeTicketsFile w).
Proof.
  destruct w as [[f r wr] c us un ck cn].
  unfold initializeTicketsFile, bind, fs_existsSync, fs_writeFileSync, JSON_stringify.
  simpl. repeat split.
  - intros H. destruct f; [reflexivity | now elim H].
  - intros -> ->. simpl. eexists. repeat split.
  - destruct f; simpl; [reflexivity|]. destruct wr; reflexivity.
Qed.

Lemma initializeTicketsFile_idempotent_witness :
  file fresh_disk = None /\ may_write fresh_disk = true /\
  exists w', initializeTicketsFile (sample_world fresh_disk) = (Ok tt, w')
             /\ file (disk w') = Some (Doc (VArr []))
             /\ initializeTicketsFile w' = (Ok tt, w').
Proof.
  split; [reflexivity|]. split; [reflexivity|].
  apply (proj1 (proj2 (initializeTicketsFile_idempotent (sample_world fresh_disk))));
    reflexivity.
Defined.

(** ** Creating and listing *)

Lemma nonempty_text_inv v :
  nonempty_text v = true -> exists s, v = VStr s /\ s <> "".
Proof.
  destruct v; try discriminate. simpl. intros H. exists s. split; [reflexivity|].
  intros ->. discriminate.
Qed.

Lemma nonempty_text_truthy v : nonempty_text v = true -> truthy v = true.
Proof. destruct v; try discriminate. auto. Qed.

Lemma well_formed_accepted body : well_formed body = true -> accepted body = true.
Proof.
  destruct body; try discriminate. simpl. intros H.
  apply andb_true_iff in H as [H1 H2].
  now rewrite (nonempty_text_truthy _ H1), (nonempty_text_truthy _ H2).
Qed.

Lemma get_tickets_spec w :
  get_tickets w
  = (Ok (mkResponse 200 (listed (disk w))),
     with_console (console w ++ read_log (disk w)) w).
Proof. unfold get_tickets, bind. now rewrite readTickets_spec. Qed.

(** C4. A create request with a non-empty text title and description is
    answered 201 with a ticket that has the four properties id, title,
    description and createdAt, in this order: its title and its description
    are the text the request supplied, unmodified, its id is the identifier
    just drawn from [uuidv4()] and its createdAt the time just read. Where the
    file system takes the write and allows the read, that same ticket is then
    the last one in the file and the last one the list handler returns. *)
Theorem post_tickets_created props w t d :
  prop "title" props = VStr t -> t <> "" ->
  prop "description" props = VStr d -> d <> "" ->
  is_array (listed (disk w)) = true ->
  exists ticket w',
    post_tickets (VObj props) w = (Ok (mkResponse 201 ticket), w')
    /\ keys_of ticket = ["id"; "title"; "description"; "createdAt"]
    /\ title_of ticket = VStr t
    /\ description_of ticket = VStr d
    /\ ticket_id ticket = VStr (uuid_source w (uuid_calls w))
    /\ createdAt_of ticket = VStr (clock w (clock_reads w))
    /\ (may_write (disk w) = true -> may_read (disk w) = true ->
        exists earlier,
          persisted (disk w') = earlier ++ [ticket]
          /\ fst (get_tickets w') = Ok (mkResponse 200 (VArr (earlier ++ [ticket])))).
Proof.
  intros Ht Hne Hd Hnd Harr.
  assert (Hok : accepted (VObj props) = true).
  { simpl. rewrite Ht, Hd. simpl.
    destruct (String.eqb_spec t ""); [contradiction|].
    destruct (String.eqb_spec d ""); [contradiction|]. reflexivity. }
  rewrite (post_tickets_accepted props w Hok).
  assert (Hrt : roundtrip (ticket_for props w) = ticket_for props w)
    by (unfold ticket_for; rewrite Ht, Hd; reflexivity).
  assert (Hfields : keys_of (ticket_for props w) = ["id"; "title"; "description"; "createdAt"]
                    /\ title_of (ticket_for props w) = VStr t
                    /\ description_of (ticket_for props w) = VStr d
                    /\ ticket_id (ticket_for props w) = VStr (uuid_source w (uuid_calls w))
                    /\ createdAt_of (ticket_for props w) = VStr (clock w (clock_reads w))).
  { unfold ticket_for. rewrite Ht, Hd. repeat split. }
  destruct Hfields as (Hk & Hti & Hde & Hid & Hca).
  destruct (listed (disk w)) as [| | | | |items|]; try discriminate.
  exists (ticket_for props w).
  destruct (may_write (disk w)) eqn:Hw.
  - eexists. split; [reflexivity|]. repeat (split; [assumption|]). intros _ Hr.
    exists (map roundtrip items).
    assert (E : roundtrip (VArr (items ++ [ticket_for props w]))
                = VArr (map roundtrip items ++ [ticket_for props w])).
    { rewrite roundtrip_arr, map_app. cbn [map]. now rewrite Hrt. }
    rewrite E, get_tickets_spec. unfold persisted, listed.
    cbn [disk with_disk file may_read fst]. rewrite Hr. split; reflexivity.
  - eexists. split; [reflexivity|]. repeat (split; [assumption|]).
    intros H. discriminate.
Qed.

Lemma post_tickets_created_witness :
  exists ticket w',
    post_tickets login_bug (sample_world fresh_disk) = (Ok (mkResponse 201 ticket), w')
    /\ keys_of ticket = ["id"; "title"; "description"; "createdAt"]
    /\ title_of ticket = VStr "Fix login bug"
    /\ description_of ticket = VStr "Users can't log in with special chars"
    /\ ticket_id ticket = VStr "uuid-"
    /\ createdAt_of ticket = VStr "2025-11-17T10:30:00.000Z+"
    /\ (may_write fresh_disk = true -> may_read fresh_disk = true ->
        exists earlier,
          persisted (disk w') = earlier ++ [ticket]
          /\ fst (get_tickets w') = Ok (mkResponse 200 (VArr (earlier ++ [ticket])))).
Proof.
  apply (@post_tickets_created
           [("title", VStr "Fix login bug");
            ("description", VStr "Users can't log in with special chars")]
           (sample_world fresh_disk)
           "Fix login bug" "Users can't log in with special chars");
    try reflexivity; discriminate.
Defined.

(** C6. On a disk that can be read and written, a create request that passes
    validation appends: the file afterwards holds what the list handler
    returned before, followed by the new ticket as its last element (each as
    [JSON.stringify] prints it), the list handler returns exactly what the file
    holds, and what it sends is the earlier list with the new ticket appended.
    When the store holds no ticket the list handler answers 200 with the empty
    array. *)
Theorem post_tickets_appends props w :
  (accepted (VObj props) = true ->
   may_read (disk w) = true -> may_write (disk w) = true ->
   is_array (listed (disk w)) = true ->
   exists items w1 ticket w2 w3,
     get_tickets w = (Ok (mkResponse 200 (VArr items)), w1)
     /\ post_tickets (VObj props) w1 = (Ok (mkResponse 201 ticket), w2)
     /\ persisted (disk w2) = map roundtrip items ++ [roundtrip ticket]
     /\ get_tickets w2 = (Ok (mkResponse 200 (VArr (persisted (disk w2)))), w3)
     /\ sent (mkResponse 200 (VArr (persisted (disk w2))))
        = JSON_stringify (VArr (items ++ [ticket]))
     /\ (roundtrip (VArr items) = VArr items -> roundtrip ticket = ticket ->
         persisted (disk w2) = items ++ [ticket]))
  /\ (persisted (disk w) = [] -> is_array (listed (disk w)) = true ->
      fst (get_tickets w) = Ok (mkResponse 200 (VArr []))).
Proof.
  split.
  - intros Hok Hr Hw Harr.
    remember (with_console (console w ++ read_log (disk w)) w) as w1 eqn:Ew1.
    assert (Hd1 : disk w1 = disk w) by (subst w1; reflexivity).
    destruct (listed (disk w)) as [| | | | |items|] eqn:El; try discriminate.
    pose (ticket := ticket_for props w1).
    pose (w2 := with_disk
                  (mkDisk (Some (Doc (roundtrip (VArr (items ++ [ticket])))))
                          (may_read (disk w)) true) (after_read w1)).
    assert (Ep : persisted (disk w2) = map roundtrip items ++ [roundtrip ticket]).
    { unfold persisted, w2. simpl. now rewrite map_app. }
    exists items, w1, ticket, w2.
    exists (with_console (console w2 ++ read_log (disk w2)) w2).
    split; [rewrite get_tickets_spec, El, Ew1; reflexivity|].
    split; [rewrite (post_tickets_accepted props w1 Hok), Hd1, El, Hw; reflexivity|].
    split; [exact Ep|].
    split.
    + rewrite get_tickets_spec. do 2 f_equal.
      rewrite Ep. unfold listed, w2. simpl. rewrite Hr. now rewrite map_app.
    + rewrite Ep. split.
      * unfold sent, JSON_stringify. cbn [json]. f_equal.
        rewrite !roundtrip_arr, !map_app, map_map. cbn [map].
        rewrite roundtrip_idem. do 2 f_equal.
        apply map_ext. intros a. apply roundtrip_idem.
      * intros Hi Ht. simpl in Hi. injection Hi as Hi. now rewrite Hi, Ht.
  - intros Hp Harr. rewrite get_tickets_spec. simpl. do 2 f_equal.
    unfold persisted in Hp. unfold listed in *.
    destruct (file (disk w)) as [[|v]|]; try reflexivity.
    destruct (may_read (disk w)); [|reflexivity].
    destruct v; try discriminate. now subst.
Qed.

Lemma post_tickets_appends_witness :
  accepted login_bug = true /\
  persisted used_disk = [old_ticket] /\
  exists items w1 ticket w2 w3,
    get_tickets (sample_world used_disk) = (Ok (mkResponse 200 (VArr items)), w1)
    /\ post_tickets login_bug w1 = (Ok (mkResponse 201 ticket), w2)
    /\ persisted (disk w2) = map roundtrip items ++ [roundtrip ticket]
    /\ get_tickets w2 = (Ok (mkResponse 200 (VArr (persisted (disk w2)))), w3)
    /\ sent (mkResponse 200 (VArr (persisted (disk w2))))
       = JSON_stringify (VArr (items ++ [ticket]))
    /\ (roundtrip (VArr items) = VArr items -> roundtrip ticket = ticket ->
        persisted (disk w2) = items ++ [ticket]).
Proof.
  split; [reflexivity|]. split; [reflexivity|].
  apply (proj1 (post_tickets_appends
                  [("title", VStr "Fix login bug");
                   ("description", VStr "Users can't log in with special chars")]
                  (sample_world used_disk))); reflexivity.
Defined.

(** ** The handlers, one event at a time *)

Lemma post_tickets_refused body w :
  accepted body = false ->
  post_tickets body w = (Ok (mkResponse 400 required_fields_error), w)
  \/ post_tickets body w = (Threw TypeError, w).
Proof.
  intros H. destruct body; try (right; reflexivity); try (left; reflexivity).
  left. simpl in H. unfold post_tickets, destructure, bind at 1 2, ret at 1 2.
  apply andb_false_iff in H.
  assert (E : negb (truthy (prop "title" props))
              || negb (truthy (prop "description" props)) = true).
  { apply orb_true_iff. destruct H as [H|H]; rewrite H; auto. }
  rewrite E. reflexivity.
Qed.

Lemma listed_persisted d items :
  listed d = VArr items -> items = persisted d \/ items = [].
Proof.
  unfold listed, persisted.
  destruct (file d) as [[|v]|]; try (intros [= <-]; auto).
  destruct (may_read d); intros H; [subst v; auto | injection H as <-; auto].
Qed.

Lemma handle_effect ev w o w' :
  handle ev w = (o, w') ->
  uuid_source w' = uuid_source w /\ effect ev w o w'.
Proof.
  destruct ev as [|body| | |r wr]; simpl; intros H.
  - (* Boot *)
    unfold bind, initializeTicketsFile, bind, fs_existsSync, fs_writeFileSync in H.
    destruct (file (disk w)) eqn:Ef; simpl in H.
    + injection H as <- <-. split; [reflexivity|]. now apply effect_none.
    + destruct (may_write (disk w)); simpl in H; injection H as <- <-;
        (split; [reflexivity|]).
      * now apply effect_initialized.
      * now apply effect_none.
  - (* PostTickets *)
    unfold bind in H.
    destruct (accepted body) eqn:Hok.
    + destruct body; try discriminate.
      rewrite (post_tickets_accepted props w Hok) in H.
      destruct (listed (disk w)) eqn:El;
        try (injection H as <- <-; split; [reflexivity|];
             now apply effect_threw with (props := props)).
      destruct (may_write (disk w)); injection H as <- <-; (split; [reflexivity|]);
        apply effect_created with (props := props) (items := items); auto.
    + destruct (post_tickets_refused body w Hok) as [E|E]; rewrite E in H;
        injection H as <- <-; (split; [reflexivity|]); now apply effect_none.
  - (* GetTickets *)
    unfold bind in H. rewrite get_tickets_spec in H. injection H as <- <-.
    split; [reflexivity|]. now apply effect_none.
  - (* GetHealth *)
    injection H as <- <-. split; [reflexivity|]. now apply effect_none.
  - (* Chmod *)
    injection H as <- <-. split; [reflexivity|]. now apply effect_none.
Qed.

(** ** The invariant holds throughout the life of the service *)

(** One step of [run]: name the outcome and the world after the first event,
    and what the event did. *)
Ltac step_run H ev w rest o w1 os w2 E1 E2 Hs He :=
  destruct (handle ev w) as [o w1] eqn:E1;
  destruct (run rest w1) as [os w2] eqn:E2;
  injection H as <- <-;
  destruct (handle_effect ev w E1) as [Hs He].

Lemma persisted_file d d' : file d' = file d -> persisted d' = persisted d.
Proof. unfold persisted. now intros ->. Qed.

Lemma receipt_ok_later base w w' r :
  uuid_calls w <= uuid_calls w' -> receipt_ok base w r -> receipt_ok base w' r.
Proof. unfold receipt_ok. intros Hle [Hi Ht]. split; [lia | exact Ht]. Qed.

Lemma store_inv_same_file base w w' :
  uuid_source w' = uuid_source w ->
  file (disk w') = file (disk w) ->
  uuid_calls w <= uuid_calls w' ->
  store_inv base w -> store_inv base w'.
Proof.
  intros Hs Hf Hle (rs & Hp & Hn & Hall).
  exists rs. rewrite Hs, (persisted_file _ _ Hf). split; [exact Hp|]. split; [exact Hn|].
  eapply Forall_impl; [|exact Hall]. intros r. now apply receipt_ok_later.
Qed.

Lemma stored_ticket_idem source r :
  roundtrip (stored_ticket source r) = stored_ticket source r.
Proof. apply roundtrip_idem. Qed.

Lemma store_inv_appended base w w' props items :
  uuid_source w' = uuid_source w ->
  accepted (VObj props) = true ->
  listed (disk w) = VArr items ->
  uuid_calls w' = S (uuid_calls w) ->
  file (disk w') = Some (Doc (roundtrip (VArr (items ++ [ticket_for props w])))) ->
  base <= uuid_calls w ->
  store_inv base w -> store_inv base w'.
Proof.
  intros Hs Hok Hl Hc Hf Hb (rs & Hp & Hn & Hall).
  simpl in Hok. apply andb_true_iff in Hok as [Ht Hd].
  set (r := mkReceipt (uuid_calls w) (prop "title" props) (prop "description" props)
                      (clock w (clock_reads w))).
  assert (Hr : receipt_ok base w' r) by (unfold receipt_ok; simpl; repeat split; auto; lia).
  assert (Hp' : persisted (disk w')
                = map roundtrip items ++ [stored_ticket (uuid_source w) r]).
  { unfold persisted. rewrite Hf, roundtrip_arr, map_app. reflexivity. }
  destruct (listed_persisted _ Hl) as [-> | ->].
  - exists (rs ++ [r]). rewrite Hs, Hp', Hp, !map_app, map_map. simpl.
    split; [|split].
    + f_equal. apply map_ext. intros a. apply stored_ticket_idem.
    + apply NoDup_app; [exact Hn | repeat constructor; intros [] |].
      intros i Hi [<- | []]. apply in_map_iff in Hi as (r0 & E & Hin).
      rewrite Forall_forall in Hall. destruct (Hall r0 Hin) as [Hlt _]. lia.
    + apply Forall_app. split; [|constructor; [exact Hr | constructor]].
      eapply Forall_impl; [|exact Hall]. intros r0. apply receipt_ok_later. lia.
  - exists [r]. rewrite Hs, Hp'. simpl. split; [reflexivity|]. split.
    + repeat constructor. intros [].
    + constructor; [exact Hr | constructor].
Qed.

Lemma effect_store_inv base ev w o w' :
  uuid_source w' = uuid_source w ->
  effect ev w o w' ->
  base <= uuid_calls w ->
  store_inv base w -> store_inv base w'.
Proof.
  intros Hs He Hb Hinv.
  destruct He as [Hf Hc _ | Hn Hf Hc _ | props _ Hf Hc _ | props items _ Hok Hl Hc _ [Hf|Hf]].
  - eapply store_inv_same_file; eauto; lia.
  - exists []. unfold persisted. rewrite Hf. repeat split; constructor.
  - eapply store_inv_same_file; eauto; lia.
  - eapply store_inv_same_file; eauto; lia.
  - eapply store_inv_appended; eauto.
Qed.

Lemma effect_calls ev w o w' :
  effect ev w o w' -> uuid_calls w <= uuid_calls w'.
Proof. intros []; lia. Qed.

Lemma run_store_inv base evs : forall w outs w',
  run evs w = (outs, w') ->
  base <= uuid_calls w ->
  store_inv base w ->
  uuid_source w' = uuid_source w /\ uuid_calls w <= uuid_calls w' /\ store_inv base w'.
Proof.
  induction evs as [|ev rest IH]; intros w outs w' H Hb Hinv; simpl in H.
  - injection H as <- <-. auto.
  - step_run H ev w rest o w1 os w2 E1 E2 Hs He.
    pose proof (effect_calls He) as Hle.
    destruct (IH w1 os w2 E2) as (Hs2 & Hle2 & Hinv2).
    + lia.
    + eapply effect_store_inv; eauto.
    + split; [congruence|]. split; [lia | exact Hinv2].
Qed.

Lemma store_inv_empty base w : persisted (disk w) = [] -> store_inv base w.
Proof. intros H. exists []. rewrite H. repeat split; constructor. Qed.

(** ** Identifiers *)

Lemma distinct_in_range (source : nat -> string) a n i j :
  NoDup (map source (seq a n)) ->
  a <= i < a + n -> a <= j < a + n -> source i = source j -> i = j.
Proof.
  intros H Hi Hj E.
  pose proof (proj1 (NoDup_nth (map source (seq a n)) (source 0)) H (i - a) (j - a)) as K.
  rewrite length_map, length_seq in K.
  rewrite !map_nth, !seq_nth in K by lia.
  replace (a + (i - a)) with i in K by lia.
  replace (a + (j - a)) with j in K by lia.
  assert (i - a = j - a) by (apply K; auto; lia). lia.
Qed.

Lemma NoDup_map_on {A B} (f : A -> B) (l : list A) :
  NoDup l ->
  (forall x y, In x l -> In y l -> f x = f y -> x = y) ->
  NoDup (map f l).
Proof.
  induction 1 as [|x l Hx Hl IH]; intros Hinj; simpl; constructor.
  - intros Hin. apply in_map_iff in Hin as (y & E & Hy).
    assert (y = x) by (apply Hinj; simpl; auto). subst y. contradiction.
  - apply IH. intros a b Ha Hb. apply Hinj; simpl; auto.
Qed.

Lemma run_calls evs : forall w outs w',
  run evs w = (outs, w') ->
  uuid_source w' = uuid_source w /\ uuid_calls w <= uuid_calls w'.
Proof.
  induction evs as [|ev rest IH]; intros w outs w' H; simpl in H.
  - injection H as <- <-. auto.
  - step_run H ev w rest o w1 os w2 E1 E2 Hs He.
    pose proof (effect_calls He) as Hle.
    destruct (IH w1 os w2 E2) as [Hs2 Hle2].
    split; [congruence | lia].
Qed.

Lemma run_created_ids evs : forall w outs w',
  run evs w = (outs, w') ->
  exists js,
    created_ids outs = map (fun j => VStr (uuid_source w j)) js
    /\ NoDup js
    /\ Forall (fun j => uuid_calls w <= j < uuid_calls w') js.
Proof.
  induction evs as [|ev rest IH]; intros w outs w' H; simpl in H.
  - injection H as <- <-. exists []. repeat split; constructor.
  - step_run H ev w rest o w1 os w2 E1 E2 Hs He.
    destruct (IH w1 os w2 E2) as (js & Hids & Hn & Hall).
    destruct (run_calls rest w1 E2) as [_ Hle2].
    rewrite Hs in Hids.
    change (created_ids (o :: os)) with (created_id o ++ created_ids os).
    destruct He as [Hf Hc Ho | Hnone Hf Hc Ho | props _ Hf Hc Ho
                   | props items _ Hok Hl Hc Ho _];
      try (rewrite Ho; exists js; split; [exact Hids|]; split; [exact Hn|];
           eapply Forall_impl; [|exact Hall]; simpl; intros; lia).
    subst o. simpl.
    exists (uuid_calls w :: js). simpl. rewrite Hids. split; [reflexivity|]. split.
    + constructor; [|exact Hn]. intros Hin.
      rewrite Forall_forall in Hall. specialize (Hall _ Hin). lia.
    + constructor; [lia|].
      eapply Forall_impl; [|exact Hall]. simpl. intros. lia.
Qed.

Lemma ticket_id_stored source r :
  ticket_id (stored_ticket source r) = VStr (source (r_index r)).
Proof. reflexivity. Qed.

(** C8. Through any sequence of events (starts, create and list requests,
    changes of what the file system allows), if the identifiers that
    [uuidv4()] handed out are pairwise distinct, then the identifiers of the
    tickets answered with 201 are pairwise distinct, and so are the
    identifiers of the tickets in the file when the store began without
    tickets: every ticket gets the identifier of its own call of [uuidv4()],
    and no identifier is rewritten afterwards. *)
Theorem ticket_ids_pairwise_distinct evs w outs w' :
  run evs w = (outs, w') ->
  NoDup (drawn_ids w w') ->
  NoDup (created_ids outs)
  /\ (persisted (disk w) = [] -> NoDup (map ticket_id (persisted (disk w')))).
Proof.
  intros Hrun Hfresh. unfold drawn_ids in Hfresh.
  destruct (run_calls evs w Hrun) as [Hs Hle].
  assert (Hinj : forall i j,
             uuid_calls w <= i < uuid_calls w' -> uuid_calls w <= j < uuid_calls w' ->
             VStr (uuid_source w i) = VStr (uuid_source w j) -> i = j).
  { intros i j Hi Hj [= E].
    apply (@distinct_in_range (uuid_source w) (uuid_calls w)
             (uuid_calls w' - uuid_calls w)); auto; lia. }
  split.
  - destruct (run_created_ids evs w Hrun) as (js & -> & Hn & Hall).
    rewrite Forall_forall in Hall.
    apply NoDup_map_on; [exact Hn|]. intros i j Hi Hj. apply Hinj; auto.
  - intros Hempty.
    destruct (@run_store_inv (uuid_calls w) evs w outs w' Hrun (le_n _)
                (@store_inv_empty _ w Hempty)) as (_ & _ & rs & Hp & Hn & Hall).
    rewrite Hp, map_map, Hs.
    rewrite (map_ext _ (fun r => VStr (uuid_source w (r_index r))))
      by (intros r; apply ticket_id_stored).
    rewrite <- (map_map r_index (fun i => VStr (uuid_source w i))).
    rewrite Forall_forall in Hall.
    apply NoDup_map_on; [exact Hn|]. intros i j Hi Hj.
    apply in_map_iff in Hi as (ri & <- & Hri). apply in_map_iff in Hj as (rj & <- & Hrj).
    apply Hinj; [apply (Hall ri Hri) | apply (Hall rj Hrj)].
Qed.

Lemma ticket_ids_pairwise_distinct_witness :
  exists outs w',
    run [Boot; PostTickets login_bug; GetTickets; PostTickets login_bug]
        (sample_world fresh_disk) = (outs, w')
    /\ NoDup (drawn_ids (sample_world fresh_disk) w')
    /\ created_ids outs = [VStr "uuid-"; VStr "uuid-1"]
    /\ NoDup (created_ids outs)
    /\ NoDup (map ticket_id (persisted (disk w'))).
Proof.
  eexists. eexists. split; [lazy; reflexivity|].
  assert (F : NoDup ["uuid-"; "uuid-1"]).
  { repeat constructor; simpl; intuition discriminate. }
  split; [exact F|]. split; [reflexivity|].
  destruct (@ticket_ids_pairwise_distinct
              [Boot; PostTickets login_bug; GetTickets; PostTickets login_bug]
              (sample_world fresh_disk) _ _ eq_refl F) as [H1 H2].
  split; [exact H1 | exact (H2 eq_refl)].
Defined.

(** ** What the file can hold *)







(** A number too large for a double is read as [Infinity], passes the check,
    and is stored as [null]. *)
Example overflowing_title_is_stored_as_null :
  let body := VObj [("title", VNum (S754_infinity false)); ("description", VStr "x")] in
  exists outs w',
    run [Boot; PostTickets body] (sample_world fresh_disk) = (outs, w')
    /\ map title_of (persisted (disk w')) = [VNull].
Proof. eexists. eexists. split; [lazy; reflexivity | reflexivity]. Qed.

(** ** Requests in flight together *)

Lemma post_tickets_kept props w items :
  well_formed (VObj props) = true ->
  may_read (disk w) = true -> may_write (disk w) = true ->
  listed (disk w) = VArr items ->
  map roundtrip items = items ->
  exists w',
    post_tickets (VObj props) w = (Ok (mkResponse 201 (ticket_for props w)), w')
    /\ may_read (disk w') = true /\ may_write (disk w') = true
    /\ listed (disk w') = VArr (items ++ [ticket_for props w])
    /\ roundtrip (ticket_for props w) = ticket_for props w.
Proof.
  intros Hwf Hr Hw Hl Hcanon.
  rewrite (post_tickets_accepted props w (well_formed_accepted _ Hwf)), Hl, Hw.
  simpl in Hwf. apply andb_true_iff in Hwf as [Ht Hd].
  assert (Hrt : roundtrip (ticket_for props w) = ticket_for props w).
  { unfold ticket_for, newTicket. rewrite roundtrip_obj.
    destruct (nonempty_text_inv _ Ht) as (t & -> & _).
    destruct (nonempty_text_inv _ Hd) as (d & -> & _). reflexivity. }
  eexists. split; [reflexivity|].
  unfold listed. cbn [disk with_disk may_read may_write file].
  rewrite Hr, roundtrip_arr, map_app, Hcanon. cbn [map]. rewrite Hrt. auto.
Qed.

Lemma serves_permutation bodies w results w' :
  serves bodies w results w' -> Permutation (map fst results) bodies.
Proof.
  induction 1 as [|before body after w o w1 rest w2 _ _ IH]; simpl.
  - constructor.
  - now apply Permutation_cons_app.
Qed.

Lemma serves_total bodies : forall w, exists results w', serves bodies w results w'.
Proof.
  induction bodies as [|body rest IH]; intros w.
  - exists [], w. constructor.
  - destruct (post_tickets body w) as [o w1] eqn:E.
    destruct (IH w1) as (results & w2 & H).
    exists ((body, o) :: results), w2.
    now apply (@serves_pick [] body rest w o w1 results w2 E).
Qed.

Lemma serves_kept bodies w results w' :
  serves bodies w results w' ->
  Forall (fun b => well_formed b = true) bodies ->
  may_read (disk w) = true -> may_write (disk w) = true ->
  forall items,
    listed (disk w) = VArr items ->
    map roundtrip items = items ->
    Forall (fun br => created_from (fst br) (snd br)) results
    /\ exists made,
         listed (disk w') = VArr (items ++ made)
         /\ map title_of made = map (fun br => title_of (fst br)) results.
Proof.
  induction 1 as [w|before body after w o w1 rest w2 Hpost _ IH];
    intros Hwf Hr Hw items Hl Hcanon.
  - split; [constructor|]. exists []. now rewrite app_nil_r.
  - apply Forall_app in Hwf as [Hb Ha]. inversion Ha as [|? ? Hbody Ha']; subst.
    destruct body as [| | | | | |props]; try discriminate.
    destruct (post_tickets_kept props w Hbody Hr Hw Hl Hcanon)
      as (w1' & E & Hr1 & Hw1 & Hl1 & Hrt).
    rewrite E in Hpost. injection Hpost as <- <-.
    destruct (IH (proj2 (Forall_app _ _ _) (conj Hb Ha')) Hr1 Hw1 _ Hl1) as [Hres Hmade].
    { rewrite map_app, Hcanon. cbn [map]. now rewrite Hrt. }
    destruct Hmade as (made & Hl2 & Htitles).
    split.
    + constructor; [|exact Hres].
      exists (ticket_for props w). repeat split.
    + exists (ticket_for props w :: made). rewrite Hl2, <- app_assoc. simpl.
      split; [reflexivity|]. now rewrite Htitles.
Qed.

(** C2. A handler runs from its first statement to its last before the next
    request is picked, so create requests that are in flight together are
    served in some order, and in whichever order: on a store without tickets
    that can be read and written, each of N well-formed create requests is
    answered 201 with a ticket carrying its title and description, and the
    list handler then returns exactly N tickets whose titles are the N titles
    that were sent. No update is lost. *)
Theorem concurrent_creates_all_kept bodies w :
  Forall (fun b => well_formed b = true) bodies ->
  may_read (disk w) = true -> may_write (disk w) = true ->
  listed (disk w) = VArr [] ->
  (exists results w', serves bodies w results w')
  /\ forall results w',
       serves bodies w results w' ->
       Forall (fun br => created_from (fst br) (snd br)) results
       /\ exists tickets,
            fst (get_tickets w') = Ok (mkResponse 200 (VArr tickets))
            /\ List.length tickets = List.length bodies
            /\ Permutation (map title_of tickets) (map title_of bodies).
Proof.
  intros Hwf Hr Hw Hl. split; [apply serves_total|].
  intros results w' Hserves.
  destruct (serves_kept Hserves Hwf Hr Hw Hl eq_refl) as (Hres & made & Hl' & Htitles).
  split; [exact Hres|].
  pose proof (serves_permutation Hserves) as Hperm.
  exists made. rewrite get_tickets_spec. simpl. rewrite Hl'. simpl.
  split; [reflexivity|]. split.
  - rewrite <- (length_map title_of made), Htitles, length_map.
    rewrite <- (length_map fst results). now apply Permutation_length.
  - rewrite Htitles, <- (map_map fst title_of). now apply Permutation_map.
Qed.

Lemma concurrent_creates_all_kept_witness :
  let bodies := [login_bug;
                 VObj [("title", VStr "Add search"); ("description", VStr "By title")]] in
  (exists results w', serves bodies (sample_world fresh_disk) results w')
  /\ forall results w',
       serves bodies (sample_world fresh_disk) results w' ->
       Forall (fun br => created_from (fst br) (snd br)) results
       /\ exists tickets,
            fst (get_tickets w') = Ok (mkResponse 200 (VArr tickets))
            /\ List.length tickets = 2
            /\ Permutation (map title_of tickets)
                           [VStr "Fix login bug"; VStr "Add search"].
Proof.
  apply (@concurrent_creates_all_kept
           [login_bug;
            VObj [("title", VStr "Add search"); ("description", VStr "By title")]]
           (sample_world fresh_disk)); try reflexivity.
  repeat constructor.
Defined.

(** * Further properties of index.js *)

(** ** Listing *)

(** X1. The list handler answers 200 in every world: whatever the state of
    the file, it does not throw, it does not change the file, and asked a
    second time it answers with the same body. *)
Theorem get_tickets_always_answers w :
  exists body w',
    get_tickets w = (Ok (mkResponse 200 body), w')
    /\ disk w' = disk w
    /\ fst (get_tickets w') = Ok (mkResponse 200 body).
Proof.
  exists (listed (disk w)), (with_console (console w ++ read_log (disk w)) w).
  split; [apply get_tickets_spec|]. split; [reflexivity|].
  rewrite get_tickets_spec. reflexivity.
Qed.

(** ** Start-up *)

(** X2. Starting the process never changes what the service lists: in every
    world the list handler answers after [initializeTicketsFile] what it
    answered before, and the tickets in the file are the same. *)
Theorem initializeTicketsFile_keeps_listing w :
  fst (get_tickets (snd (initializeTicketsFile w))) = fst (get_tickets w)
  /\ persisted (disk (snd (initializeTicketsFile w))) = persisted (disk w).
Proof.
  rewrite !get_tickets_spec.
  destruct w as [[f r wr] c us un ck cn].
  unfold initializeTicketsFile, bind, fs_existsSync, fs_writeFileSync, JSON_stringify,
    listed, persisted.
  simpl. destruct f as [t|]; simpl; [split; reflexivity|].
  destruct wr; simpl; [|split; reflexivity].
  destruct r; split; reflexivity.
Qed.

(** X3. When there is no file and the file system refuses the write,
    [initializeTicketsFile] throws the file system's error: nothing catches
    it, nothing is logged and the world is as it was. In the same world
    [writeTickets] returns normally and logs the error: the write at start-up
    is the one write of index.js that is not guarded. *)
Theorem initializeTicketsFile_refused_write_throws w :
  file (disk w) = None ->
  may_write (disk w) = false ->
  initializeTicketsFile w = (Threw EACCES, w)
  /\ forall items,
       writeTickets (VArr items) w
       = (Ok tt, with_console (console w ++ [ErrorWriting EACCES]) w).
Proof.
  intros Hf Hw. split.
  - unfold initializeTicketsFile, bind, fs_existsSync, fs_writeFileSync.
    rewrite Hf. cbn [negb]. now rewrite Hw.
  - intros items. rewrite writeTickets_spec. now rewrite Hw.
Qed.

Lemma initializeTicketsFile_refused_write_throws_witness :
  file (mkDisk None true false) = None /\
  may_write (mkDisk None true false) = false /\
  initializeTicketsFile (sample_world (mkDisk None true false))
  = (Threw EACCES, sample_world (mkDisk None true false))
  /\ forall items,
       writeTickets (VArr items) (sample_world (mkDisk None true false))
       = (Ok tt, with_console [ErrorWriting EACCES]
                   (sample_world (mkDisk None true false))).
Proof.
  split; [reflexivity|]. split; [reflexivity|].
  apply (@initializeTicketsFile_refused_write_throws
           (sample_world (mkDisk None true false))); reflexivity.
Defined.

(** ** The answers of the create handler *)

Lemma post_tickets_refused_object props w :
  accepted (VObj props) = false ->
  post_tickets (VObj props) w = (Ok (mkResponse 400 required_fields_error), w).
Proof.
  intros H. simpl in H. apply andb_false_iff in H.
  unfold post_tickets, destructure, bind at 1 2, ret at 1 2.
  assert (E : negb (truthy (prop "title" props))
              || negb (truthy (prop "description" props)) = true).
  { apply orb_true_iff. destruct H as [H|H]; rewrite H; auto. }
  rewrite E. reflexivity.
Qed.

(** X4. For a request whose body is an object, the create handler answers 400
    exactly when the title or the description is falsy (absent, [null], the
    empty string, but also [false], [0] and [NaN]); the world is then left as
    it was. *)
Theorem post_tickets_400_iff props w :
  (accepted (VObj props) = false ->
   post_tickets (VObj props) w = (Ok (mkResponse 400 required_fields_error), w))
  /\ (forall r w', post_tickets (VObj props) w = (Ok r, w') ->
                   status r = 400 -> accepted (VObj props) = false).
Proof.
  split.
  - apply post_tickets_refused_object.
  - intros r w' H Hs. destruct (accepted (VObj props)) eqn:Hok; [|reflexivity].
    rewrite (post_tickets_accepted props w Hok) in H.
    destruct (listed (disk w)); try discriminate.
    destruct (may_write (disk w)); injection H as <- <-; discriminate.
Qed.

Lemma post_tickets_400_iff_witness :
  let props := [("title", VNum (S754_zero false)); ("description", VStr "x")] in
  accepted (VObj props) = false /\
  post_tickets (VObj props) (sample_world used_disk)
  = (Ok (mkResponse 400 required_fields_error), sample_world used_disk).
Proof.
  split; [reflexivity|].
  apply (proj1 (post_tickets_400_iff
                  [("title", VNum (S754_zero false)); ("description", VStr "x")]
                  (sample_world used_disk))).
  reflexivity.
Defined.

(** X5. For a request whose body is an object, the create handler throws
    exactly when the request passes validation and what [readTickets] returns
    is not an array. *)
Theorem post_tickets_throws_iff props w :
  (exists e w', post_tickets (VObj props) w = (Threw e, w'))
  <-> accepted (VObj props) = true /\ is_array (listed (disk w)) = false.
Proof.
  split.
  - intros (e & w' & H). destruct (accepted (VObj props)) eqn:Hok.
    + split; [reflexivity|]. rewrite (post_tickets_accepted props w Hok) in H.
      destruct (listed (disk w)); try reflexivity.
      destruct (may_write (disk w)); discriminate.
    + rewrite (post_tickets_refused_object props w Hok) in H. discriminate.
  - intros [Hok Harr]. rewrite (post_tickets_accepted props w Hok).
    destruct (listed (disk w)); try discriminate; eauto.
Qed.

Lemma post_tickets_throws_iff_witness :
  accepted login_bug = true /\ is_array (listed object_disk) = false /\
  exists e w', post_tickets login_bug (sample_world object_disk) = (Threw e, w').
Proof.
  split; [reflexivity|]. split; [reflexivity|].
  apply (proj2 (post_tickets_throws_iff
                  [("title", VStr "Fix login bug");
                   ("description", VStr "Users can't log in with special chars")]
                  (sample_world object_disk))).
  split; reflexivity.
Defined.

(** X6. When reading the file fails (it is missing, may not be read or does
    not parse) and the file system takes the write, a create request that
    passes validation is answered 201 and the file afterwards holds the new
    ticket alone: whatever the file held is replaced. The read error is
    logged. *)
Theorem post_tickets_replaces_unreadable props w e :
  accepted (VObj props) = true ->
  read_failure (disk w) = Some e ->
  may_write (disk w) = true ->
  exists w',
    post_tickets (VObj props) w = (Ok (mkResponse 201 (ticket_for props w)), w')
    /\ file (disk w') = Some (Doc (VArr [roundtrip (ticket_for props w)]))
    /\ console w' = console w ++ [ErrorReading e].
Proof.
  intros Hok Hfail Hw.
  rewrite (post_tickets_accepted props w Hok), Hw.
  assert (El : listed (disk w) = VArr []).
  { unfold listed. unfold read_failure in Hfail.
    destruct (file (disk w)) as [[|v]|]; try reflexivity.
    destruct (may_read (disk w)); [discriminate | reflexivity]. }
  rewrite El. eexists. split; [reflexivity|]. split; [reflexivity|].
  unfold after_read, read_log. now rewrite Hfail.
Qed.

Lemma post_tickets_replaces_unreadable_witness :
  persisted locked_disk = [old_ticket] /\
  read_failure locked_disk = Some EACCES /\
  exists w',
    post_tickets login_bug (sample_world locked_disk)
    = (Ok (mkResponse 201 (ticket_for
             [("title", VStr "Fix login bug");
              ("description", VStr "Users can't log in with special chars")]
             (sample_world locked_disk))), w')
    /\ file (disk w')
       = Some (Doc (VArr [newTicket "uuid-" (VStr "Fix login bug")
                            (VStr "Users can't log in with special chars")
                            "2025-11-17T10:30:00.000Z+"]))
    /\ console w' = [ErrorReading EACCES].
Proof.
  split; [reflexivity|]. split; [reflexivity|].
  apply (@post_tickets_replaces_unreadable
           [("title", VStr "Fix login bug");
            ("description", VStr "Users can't log in with special chars")]
           (sample_world locked_disk) EACCES); reflexivity.
Defined.

(** ** Writing and reading back *)

(** X7. On a disk that can be written and read, [readTickets] after
    [writeTickets] of an array (what the handlers write) returns the array as
    [JSON.stringify] prints it, without logging; and writing back what was
    read leaves the world exactly as it is: rewriting the file is stable. *)
Theorem writeTickets_readTickets items w :
  may_write (disk w) = true ->
  may_read (disk w) = true ->
  exists w1,
    writeTickets (VArr items) w = (Ok tt, w1)
    /\ readTickets w1 = (Ok (VArr (map roundtrip items)), w1)
    /\ writeTickets (VArr (map roundtrip items)) w1 = (Ok tt, w1).
Proof.
  intros Hw Hr. destruct w as [[f r wr] c us un ck cn]. simpl in Hw, Hr. subst r wr.
  eexists. split; [rewrite writeTickets_spec; reflexivity|]. split.
  - rewrite readTickets_spec. unfold listed, read_log, read_failure, with_console.
    simpl. now rewrite app_nil_r.
  - rewrite writeTickets_spec. cbn [disk with_disk may_write may_read].
    rewrite <- !roundtrip_arr. now rewrite roundtrip_idem.
Qed.

Lemma writeTickets_readTickets_witness :
  exists w1,
    writeTickets (VArr [old_ticket; VNum (S754_zero true)]) (sample_world fresh_disk)
    = (Ok tt, w1)
    /\ readTickets w1 = (Ok (VArr [old_ticket; VNum (S754_zero false)]), w1)
    /\ writeTickets (VArr [old_ticket; VNum (S754_zero false)]) w1 = (Ok tt, w1).
Proof.
  apply (@writeTickets_readTickets [old_ticket; VNum (S754_zero true)]
           (sample_world fresh_disk)); reflexivity.
Defined.

(** ** The file only grows *)

Lemma steady_listed d : steady d -> listed d = VArr (persisted d).
Proof.
  intros (Hr & Harr & _). unfold listed, persisted in *. rewrite Hr in *.
  destruct (file d) as [[|v]|]; try reflexivity.
  destruct v; try discriminate. reflexivity.
Qed.

Lemma steady_same_file d d' :
  file d' = file d -> may_read d' = true -> steady d -> steady d'.
Proof.
  intros Hf Hr (Hr0 & Harr & Hc). unfold steady, listed, persisted in *.
  rewrite Hf, Hr. rewrite Hr0 in Harr. auto.
Qed.

(** One event on a steady disk. *)
Lemma handle_steady ev w o w' :
  handle ev w = (o, w') ->
  keeps_readable ev = true ->
  steady (disk w) ->
  steady (disk w')
  /\ exists more,
       persisted (disk w') = persisted (disk w) ++ more
       /\ incl more (map roundtrip (created_ticket o))
       /\ (no_chmod ev = true -> may_write (disk w') = may_write (disk w))
       /\ (may_write (disk w) = true -> more = map roundtrip (created_ticket o)).
Proof.
  intros H Hk Hst. pose proof Hst as (Hr & Harr & Hc).
  assert (Same : forall o0 w0, disk w0 = disk w -> created_ticket o0 = [] ->
             steady (disk w0)
             /\ exists more,
                  persisted (disk w0) = persisted (disk w) ++ more
                  /\ incl more (map roundtrip (created_ticket o0))
                  /\ (no_chmod ev = true -> may_write (disk w0) = may_write (disk w))
                  /\ (may_write (disk w) = true -> more = map roundtrip (created_ticket o0))).
  { intros o0 w0 Hd Ho. rewrite Hd, Ho. split; [exact Hst|].
    exists []. rewrite app_nil_r. repeat split; auto. apply incl_refl. }
  destruct ev as [|body| | |r wr]; simpl in H.
  - (* Boot *)
    unfold bind, initializeTicketsFile, bind, fs_existsSync, fs_writeFileSync in H.
    destruct (file (disk w)) eqn:Ef; simpl in H.
    + injection H as <- <-. now apply Same.
    + destruct (may_write (disk w)) eqn:Hw; simpl in H; injection H as <- <-.
      * split.
        { unfold steady, listed, persisted. simpl. rewrite Hr. auto. }
        exists []. unfold persisted. simpl. rewrite Ef.
        repeat split; auto. apply incl_refl.
      * now apply Same.
  - (* PostTickets *)
    unfold bind in H. destruct (accepted body) eqn:Hok.
    + destruct body; try discriminate.
      rewrite (post_tickets_accepted props w Hok), (steady_listed Hst) in H.
      destruct (may_write (disk w)) eqn:Hw; injection H as <- <-.
      * pose (d' := mkDisk (Some (Doc (roundtrip
                       (VArr (persisted (disk w) ++ [ticket_for props w])))))
                       (may_read (disk w)) true).
        assert (Ep : persisted d'
                     = persisted (disk w) ++ [roundtrip (ticket_for props w)]).
        { unfold persisted at 1, d'. cbn [file].
          now rewrite roundtrip_arr, map_app, Hc. }
        assert (Hst' : steady d').
        { unfold steady. rewrite Ep. unfold listed, d'. cbn [file may_read].
          rewrite Hr. repeat split.
          rewrite map_app, Hc. cbn [map]. now rewrite roundtrip_idem. }
        split; [exact Hst'|].
        exists [roundtrip (ticket_for props w)]. split; [exact Ep|].
        repeat split; auto. apply incl_refl.
      * split; [exact Hst|]. exists []. rewrite app_nil_r.
        split; [reflexivity|]. split; [apply incl_nil_l|].
        split; [auto | discriminate].
    + destruct (post_tickets_refused body w Hok) as [E|E]; rewrite E in H;
        injection H as <- <-; now apply Same.
  - (* GetTickets *)
    unfold bind in H. rewrite get_tickets_spec in H. injection H as <- <-.
    now apply Same.
  - (* GetHealth *)
    injection H as <- <-. now apply Same.
  - (* Chmod *)
    injection H as <- <-. simpl in Hk. subst r. split.
    + now apply (@steady_same_file (disk w)).
    + exists []. rewrite app_nil_r. split; [reflexivity|].
      split; [apply incl_nil_l|]. split; [discriminate | reflexivity].
Qed.

Lemma run_steady evs : forall w outs w',
  run evs w = (outs, w') ->
  forallb keeps_readable evs = true ->
  steady (disk w) ->
  steady (disk w')
  /\ exists more,
       persisted (disk w') = persisted (disk w) ++ more
       /\ incl more (map roundtrip (created_tickets outs))
       /\ (forallb no_chmod evs = true -> may_write (disk w) = true ->
           may_write (disk w') = true
           /\ more = map roundtrip (created_tickets outs)).
Proof.
  induction evs as [|ev rest IH]; intros w outs w' H Hk Hst; simpl in H.
  - injection H as <- <-. split; [exact Hst|]. exists []. rewrite app_nil_r.
    repeat split; auto. apply incl_refl.
  - destruct (handle ev w) as [o w1] eqn:E1.
    destruct (run rest w1) as [os w2] eqn:E2.
    injection H as <- <-.
    simpl in Hk. apply andb_true_iff in Hk as [Hk1 Hk2].
    destruct (handle_steady ev w E1 Hk1 Hst) as (Hst1 & m1 & Hp1 & Hi1 & Hperm1 & Hm1).
    destruct (IH w1 os w2 E2 Hk2 Hst1) as (Hst2 & m2 & Hp2 & Hi2 & Hm2).
    change (created_tickets (o :: os)) with (created_ticket o ++ created_tickets os).
    rewrite map_app.
    split; [exact Hst2|].
    exists (m1 ++ m2). rewrite Hp2, Hp1, app_assoc. split; [reflexivity|].
    split; [now apply incl_app_app|].
    intros Hn Hw. simpl in Hn. apply andb_true_iff in Hn as [Hn1 Hn2].
    assert (Hw1 : may_write (disk w1) = true) by (rewrite (Hperm1 Hn1); exact Hw).
    destruct (Hm2 Hn2 Hw1) as [Hw2 ->]. rewrite (Hm1 Hw).
    split; [exact Hw2 | reflexivity].
Qed.

(** X8. Through any sequence of starts and requests on a disk that can be
    read and written, the file afterwards holds the tickets it held before
    followed by exactly the tickets the service answered with 201, in the
    order of the answers and as [JSON.stringify] prints them: every ticket
    answered is kept, nothing else is added, nothing is removed or changed. *)
Theorem run_keeps_every_created_ticket evs w outs w' :
  run evs w = (outs, w') ->
  forallb no_chmod evs = true ->
  steady (disk w) ->
  may_write (disk w) = true ->
  persisted (disk w') = persisted (disk w) ++ map roundtrip (created_tickets outs).
Proof.
  intros Hrun Hn Hst Hw.
  assert (Hk : forallb keeps_readable evs = true).
  { clear - Hn. induction evs as [|ev rest IH]; [reflexivity|].
    simpl in *. apply andb_true_iff in Hn as [H1 H2].
    rewrite (IH H2). destruct ev; try reflexivity. discriminate. }
  destruct (run_steady evs w Hrun Hk Hst) as (_ & more & Hp & _ & Hm).
  destruct (Hm Hn Hw) as [_ ->]. exact Hp.
Qed.

Lemma run_keeps_every_created_ticket_witness :
  exists outs w',
    run [Boot; PostTickets login_bug; PostTickets no_title; GetTickets;
         PostTickets numeric_title] (sample_world used_disk) = (outs, w')
    /\ List.length (created_tickets outs) = 2
    /\ persisted (disk w') = old_ticket :: map roundtrip (created_tickets outs).
Proof.
  eexists. eexists. split; [lazy; reflexivity|]. split; [reflexivity|].
  apply (@run_keeps_every_created_ticket
           [Boot; PostTickets login_bug; PostTickets no_title; GetTickets;
            PostTickets numeric_title] (sample_world used_disk));
    try reflexivity.
  repeat split.
Defined.

(** X9. Through any sequence of events that leave the file readable (the file
    system may refuse writes at any time), the tickets the file held at the
    start are still there at the end, in the same places and unchanged; what
    comes after them are tickets the service answered with 201, as
    [JSON.stringify] prints them. *)
Theorem run_never_drops_a_ticket evs w outs w' :
  run evs w = (outs, w') ->
  forallb keeps_readable evs = true ->
  steady (disk w) ->
  exists more,
    persisted (disk w') = persisted (disk w) ++ more
    /\ incl more (map roundtrip (created_tickets outs)).
Proof.
  intros Hrun Hk Hst.
  destruct (run_steady evs w Hrun Hk Hst) as (_ & more & Hp & Hi & _).
  now exists more.
Qed.

Lemma run_never_drops_a_ticket_witness :
  let evs := [PostTickets login_bug; Chmod true false; PostTickets login_bug;
              Chmod true true; Boot; PostTickets numeric_title] in
  let w := sample_world used_disk in
  forallb keeps_readable evs = true /\
  exists more,
    persisted (disk (snd (run evs w))) = old_ticket :: more
    /\ incl more (map roundtrip (created_tickets (fst (run evs w)))).
Proof.
  split; [reflexivity|].
  apply (@run_never_drops_a_ticket
           [PostTickets login_bug; Chmod true false; PostTickets login_bug;
            Chmod true true; Boot; PostTickets numeric_title]
           (sample_world used_disk)).
  - apply surjective_pairing.
  - reflexivity.
  - repeat split.
Defined.

(** X10. On a disk that can be read and written, after any sequence of starts
    and requests the list handler returns the tickets the file held at the
    start followed by every ticket answered with 201 so far, in the order of
    the answers: a client that lists sees all that was created before. *)
Theorem get_tickets_sees_every_created_ticket evs w outs w' :
  run evs w = (outs, w') ->
  forallb no_chmod evs = true ->
  steady (disk w) ->
  may_write (disk w) = true ->
  fst (get_tickets w')
  = Ok (mkResponse 200
          (VArr (persisted (disk w) ++ map roundtrip (created_tickets outs)))).
Proof.
  intros Hrun Hn Hst Hw.
  assert (Hk : forallb keeps_readable evs = true).
  { clear - Hn. induction evs as [|ev rest IH]; [reflexivity|].
    simpl in *. apply andb_true_iff in Hn as [H1 H2].
    rewrite (IH H2). destruct ev; try reflexivity. discriminate. }
  destruct (run_steady evs w Hrun Hk Hst) as (Hst' & more & Hp & _ & Hm).
  destruct (Hm Hn Hw) as [_ ->].
  rewrite get_tickets_spec. cbn [fst]. now rewrite (steady_listed Hst'), Hp.
Qed.

Lemma get_tickets_sees_every_created_ticket_witness :
  exists outs w',
    run [Boot; PostTickets login_bug; PostTickets numeric_title]
        (sample_world fresh_disk) = (outs, w')
    /\ fst (get_tickets w')
       = Ok (mkResponse 200 (VArr (map roundtrip (created_tickets outs))))
    /\ List.length (created_tickets outs) = 2.
Proof.
  eexists. eexists. split; [lazy; reflexivity|]. split; [|reflexivity].
  apply (@get_tickets_sees_every_created_ticket
           [Boot; PostTickets login_bug; PostTickets numeric_title]
           (sample_world fresh_disk)); try reflexivity.
  repeat split.
Defined.

(** ** Which answer for which request *)

(** X11. The handlers answer with three statuses only. A create request is
    answered 201 when it passes validation and 400, with the world left as it
    was, when it does not; it is never answered 200. The list and the health
    handlers answer 200. Nothing else produces a response. *)
Theorem handle_status ev w r w' :
  handle ev w = (Ok (Some r), w') ->
  match ev with
  | PostTickets body =>
      (status r = 201 /\ accepted body = true /\ title_of (json r) = title_of body
       /\ description_of (json r) = description_of body)
      \/ (status r = 400 /\ accepted body = false /\ w' = w)
  | GetTickets | GetHealth => status r = 200
  | Boot | Chmod _ _ => False
  end.
Proof.
  destruct ev as [|body| | |rd wr]; simpl; intros H.
  - unfold bind in H. destruct (initializeTicketsFile w) as [[[]|e] w1]; discriminate.
  - unfold bind in H. destruct (accepted body) eqn:Hok.
    + left. destruct body; try discriminate.
      rewrite (post_tickets_accepted props w Hok) in H.
      destruct (listed (disk w)); try discriminate.
      destruct (may_write (disk w)); injection H as <- <-; repeat split.
    + right. destruct (post_tickets_refused body w Hok) as [E|E]; rewrite E in H;
        [injection H as <- <-; repeat split | discriminate].
  - unfold bind in H. rewrite get_tickets_spec in H. injection H as <- <-. reflexivity.
  - injection H as <- <-. reflexivity.
  - discriminate.
Qed.

Lemma handle_status_witness :
  exists r w',
    handle (PostTickets numeric_title) (sample_world read_only_disk) = (Ok (Some r), w')
    /\ status r = 201 /\ title_of (json r) = VNum five.
Proof.
  eexists. eexists. split; [lazy; reflexivity|].
  destruct (@handle_status (PostTickets numeric_title) (sample_world read_only_disk)
              _ _ eq_refl) as [(H1 & _ & H2 & _) | (H1 & _)].
  - split; [exact H1 | exact H2].
  - discriminate H1.
Defined.

(** X12. What the client receives for a created ticket is what the file holds
    for it: when the file system takes the write, the body sent with the 201
    answer and the last element of the file are the same JSON, also for
    fields that [JSON.stringify] does not print as they are. *)
Theorem post_tickets_sends_what_it_stores props w :
  accepted (VObj props) = true ->
  is_array (listed (disk w)) = true ->
  may_write (disk w) = true ->
  exists r w' earlier stored,
    post_tickets (VObj props) w = (Ok r, w')
    /\ status r = 201
    /\ persisted (disk w') = earlier ++ [stored]
    /\ sent r = Doc stored.
Proof.
  intros Hok Harr Hw.
  rewrite (post_tickets_accepted props w Hok), Hw.
  destruct (listed (disk w)) as [| | | | |items|]; try discriminate.
  eexists. eexists. exists (map roundtrip items), (roundtrip (ticket_for props w)).
  split; [reflexivity|]. split; [reflexivity|]. split; [|reflexivity].
  unfold persisted. cbn [disk with_disk file]. now rewrite roundtrip_arr, map_app.
Qed.

Lemma post_tickets_sends_what_it_stores_witness :
  let props := [("title", VNum (S754_infinity false)); ("description", VStr "x")] in
  accepted (VObj props) = true /\
  exists r w' earlier stored,
    post_tickets (VObj props) (sample_world used_disk) = (Ok r, w')
    /\ status r = 201
    /\ persisted (disk w') = earlier ++ [stored]
    /\ sent r = Doc stored.
Proof.
  split; [reflexivity|].
  apply (@post_tickets_sends_what_it_stores
           [("title", VNum (S754_infinity false)); ("description", VStr "x")]
           (sample_world used_disk)); reflexivity.
Defined.
